(** * Topographic variable extraction (GEE_TopographicVariableExtractionScript.js)

    Shallow embedding of the Earth Engine script that samples the ArcticDEM
    at thaw-database points and derives mean elevation in a 100 m buffer,
    relative elevation and a solar radiation index (SRI).

    Modelling choices:
    - Earth Engine numbers are reals ([R]).
    - A feature is a geometry plus a property dictionary ([gmap string value]).
    - Server-side failures (a required numeric argument that is null, too many
      pixels in a reduction) are the [Err] case of a small error monad; a
      collection [map] fails as a whole when one element fails, as an export
      of such a collection does.
    - The raster is a record of its lookups: the pixel values under a point
      (None when the pixel is masked in some band, so that [sampleRegions]
      drops the point) and the pixels [reduceRegion] visits for a buffer. *)

From Stdlib Require Import Reals Lra Psatz.
From Stdlib Require Import QArith Qround.
From Stdlib Require Lqa.
From stdpp Require Import base gmap strings list.

Open Scope R_scope.

(** ** Earth Engine values and errors *)

Inductive value : Type :=
| VNum (r : R)
| VStr (s : string)
| VNull.

Inductive result (A : Type) : Type :=
| Ok (a : A)
| Err (msg : string).
Arguments Ok {A} a.
Arguments Err {A} msg.

Definition bind {A B} (m : result A) (k : A -> result B) : result B :=
  match m with
  | Ok a => k a
  | Err e => Err e
  end.

Notation "x <- m ;; k" := (bind m (fun x => k))
  (at level 100, m at next level, right associativity).

(** [ee.Number(v)] used in arithmetic: a null or missing argument makes the
    server-side algorithm fail. *)
Definition ee_Number (v : option value) : result R :=
  match v with
  | Some (VNum r) => Ok r
  | Some (VStr _) => Err "Number: Invalid type. Expected type: Number."
  | Some VNull | None => Err "Number: Parameter is required."
  end.

(** [FeatureCollection.map]: all elements or the first error. *)
Fixpoint ee_map {A B} (f : A -> result B) (l : list A) : result (list B) :=
  match l with
  | [] => Ok []
  | x :: xs => y <- f x ;; ys <- ee_map f xs ;; Ok (y :: ys)
  end.

(** ** Features *)

Record geometry : Type := Point { lon : R; lat : R }.

Record feature : Type := Feature {
  fid : string;                (** [system:index] *)
  geom : option geometry;      (** None: a record without a geometry *)
  props : gmap string value
}.

Definition get (f : feature) (k : string) : option value := props f !! k.

(** [feature.set(k, v)] returns a copy with property [k] set to [v]. *)
Definition set (f : feature) (k : string) (v : value) : feature :=
  Feature (fid f) (geom f) (<[k := v]> (props f)).

(** [feature.geometry().coordinates().get(1)] for a point geometry. *)
Definition coordinate_1 (f : feature) : option value :=
  match geom f with
  | Some g => Some (VNum (lat g))
  | None => None
  end.

(** ** Solar radiation index (lines 82-113) *)

Definition solarDeclination : R := 23.44 * PI / 180.
Definition solarAzimuth : R := 136.52 * PI / 180.

(** The per-point computation of lines 92-108, on the degree inputs. *)
Definition solarZenith (latDeg : R) : R :=
  let latRad := latDeg * PI / 180 in
  Rabs (latRad - solarDeclination).

Definition sri_value (slopeDeg aspectDeg latDeg : R) : R :=
  let slopeRad := slopeDeg * PI / 180 in
  let aspectRad := aspectDeg * PI / 180 in
  let z := solarZenith latDeg in
  cos z * cos slopeRad + sin z * sin slopeRad * cos (aspectRad - solarAzimuth).

(** The function mapped by [withSRI]. *)
Definition sri_stage (feature0 : feature) : result feature :=
  slope <- ee_Number (get feature0 "slope") ;;
  aspect <- ee_Number (get feature0 "aspect") ;;
  latDeg <- ee_Number (coordinate_1 feature0) ;;
  Ok (set feature0 "solar_radiation_index" (VNum (sri_value slope aspect latDeg))).

(** ** Relative elevation (lines 69-76) *)

Definition rel_stage (feature0 : feature) : result feature :=
  elevation <- ee_Number (get feature0 "elevation") ;;
  meanElev <- ee_Number (get feature0 "mean_elev_100m") ;;
  Ok (set feature0 "relative_elev" (VNum (elevation - meanElev))).

(** ** The raster and its two accessors *)

(** A pixel visited by a region reduction: its weight (the part of it inside
    the region) and its elevation, None where the DEM is masked. *)
Record pixel : Type := Pixel { pw : R; pv : option R }.

Fixpoint sum_R (l : list R) : R :=
  match l with
  | [] => 0
  | x :: xs => x + sum_R xs
  end.

(** [ee.Reducer.mean()]: the weighted mean of the unmasked pixels, null when
    there is none. *)
Definition valid_pixels (ps : list pixel) : list (R * R) :=
  omap (fun p => match pv p with Some v => Some (pw p, v) | None => None end) ps.

Definition reducer_mean (ps : list pixel) : option R :=
  match valid_pixels ps with
  | [] => None
  | vs => Some (sum_R (map (fun wv => fst wv * snd wv) vs) / sum_R (map fst vs))
  end.

(** [image.reduceRegion({reducer: mean, ..., maxPixels})]: fails when the
    region holds more pixels than [maxPixels]. *)
Definition reduceRegion_mean (maxPixels : Z) (ps : list pixel) : result (option R) :=
  if (Z.of_nat (length ps) >? maxPixels)%Z
  then Err "Too many pixels in the region."
  else Ok (reducer_mean ps).

Record image : Type := Image {
  (** elevation, slope and aspect of [terrainStack] under a point at scale 2;
      None when the pixel is masked *)
  sample_at : geometry -> option (R * R * R);
  (** the geometry [sampleRegions] gives the sampled feature *)
  sample_geom : geometry -> geometry;
  (** the pixels of [arcticDEM] at scale 2 that [reduceRegion] visits for
      [g.buffer(r)] *)
  buffer_pixels : geometry -> R -> list pixel
}.

(** ** Sampling (lines 40-44) *)

Definition sample_feature (img : image) (f : feature) : option feature :=
  match geom f with
  | None => None
  | Some g =>
      match sample_at img g with
      | Some (e, s, a) =>
          Some (Feature (String.append (fid f) "_0") (Some (sample_geom img g))
                  (<["aspect" := VNum a]> (<["slope" := VNum s]>
                     (<["elevation" := VNum e]> (props f)))))
      | None => None
      end
  end.

Definition sampleRegions (img : image) (pts : list feature) : list feature :=
  omap (sample_feature img) pts.

(** ** Mean elevation in the 100 m buffer (lines 51-61) *)

Definition maxPixels : Z := 1000000.

Definition mean_stage (img : image) (point : feature) : result feature :=
  match geom point with
  | None => Err "Feature.geometry: null geometry."
  | Some g =>
      meanElev <- reduceRegion_mean maxPixels (buffer_pixels img g 100) ;;
      Ok (set point "mean_elev_100m"
            (match meanElev with Some m => VNum m | None => VNull end))
  end.

(** The raster's two accessors read the same DEM: the elevation band of
    [terrainStack] is [arcticDEM] itself, and the 2 m pixel under a sampled
    point is one of the 2 m pixels [reduceRegion] visits for the 100 m buffer
    of the sampled geometry, with the sampled elevation. *)
Definition own_pixel_in_buffer (img : image) : Prop :=
  forall g e s a, sample_at img g = Some (e, s, a) ->
    exists q, In q (buffer_pixels img (sample_geom img g) 100) /\ pv q = Some e.

(** ** The pipeline and the script's outputs *)

(** The three stages applied to one sampled record, in the script's order. *)
Definition record_chain (img : image) (f : feature) : result feature :=
  f1 <- mean_stage img f ;;
  f2 <- rel_stage f1 ;;
  sri_stage f2.

(** The properties the script writes on a sampled record. *)
Definition derived_keys : list string :=
  ["elevation"; "slope"; "aspect"; "mean_elev_100m"; "relative_elev";
   "solar_radiation_index"].

Definition pipeline (img : image) (thawPoints : list feature) : result (list feature) :=
  sampledWithMean100m <- ee_map (mean_stage img) (sampleRegions img thawPoints) ;;
  withRelativeElev <- ee_map rel_stage sampledWithMean100m ;;
  ee_map sri_stage withRelativeElev.

Inductive effect : Type :=
| PrintOut (lines : list string)
| ExportCSV (description : string) (table : result (list feature)).

(** [print(arcticDEM.bandNames())] and [Export.table.toDrive]. *)
Definition run (img : image) (thawPoints : list feature) : list effect :=
  [PrintOut ["elevation"];
   ExportCSV "ThawDatabase_TopographicVariables" (pipeline img thawPoints)].

(** A point is reported when some printed output names it. *)
Definition reported (effs : list effect) (id : string) : Prop :=
  exists lines, In (PrintOut lines) effs /\ In id lines.

(** ** The pixels of a buffer on the 2 m grid

    [reduceRegion] at [scale: 2] works on the pixel grid of the image's
    projection: pixel [(i, j)] covers [[2i, 2i+2) x [2j, 2j+2)] in projected
    metres. The pixels it visits for a disk of radius [r] centred at
    [(cx, cy)] are among those of the disk's bounding box; which of them it
    keeps (pixel centre inside the disk, or a fraction of the pixel inside
    it) is the predicate [incl], their weights are [w], and [dem] gives the
    elevation of a pixel, None where masked. *)
Module Grid.

Definition zrange (lo hi : Z) : list Z :=
  map (fun k => (lo + Z.of_nat k)%Z) (seq 0 (Z.to_nat (hi - lo + 1))).

Definition box_cells (s r cx cy : Q) : list (Z * Z) :=
  list_prod (zrange (Qfloor ((cx - r) / s)) (Qfloor ((cx + r) / s)))
            (zrange (Qfloor ((cy - r) / s)) (Qfloor ((cy + r) / s))).

Definition region_cells (incl : Z * Z -> bool) (s r cx cy : Q) : list (Z * Z) :=
  List.filter incl (box_cells s r cx cy).

Definition region_pixels (dem : Z * Z -> option R) (w : Z * Z -> R)
    (incl : Z * Z -> bool) (s r cx cy : Q) : list pixel :=
  map (fun c => Pixel (w c) (dem c)) (region_cells incl s r cx cy).

End Grid.

(** * Properties *)

(** ** Helper lemmas *)

Lemma bind_Ok {A B} (m : result A) (k : A -> result B) (b : B) :
  bind m k = Ok b -> exists a, m = Ok a /\ k a = Ok b.
Proof. destruct m as [a|e]; simpl; [eauto | discriminate]. Qed.

Lemma ee_Number_Ok (v : option value) (r : R) :
  ee_Number v = Ok r -> v = Some (VNum r).
Proof. destruct v as [[x|s|]|]; simpl; congruence. Qed.

Lemma ee_map_Ok_cons {A B} (f : A -> result B) x xs l' :
  ee_map f (x :: xs) = Ok l' ->
  exists y ys, f x = Ok y /\ ee_map f xs = Ok ys /\ l' = y :: ys.
Proof.
  simpl. intros H.
  destruct (f x) as [y|e]; simpl in H; [|discriminate].
  destruct (ee_map f xs) as [ys|e]; simpl in H; [|discriminate].
  injection H as <-. eauto.
Qed.

(** A stage that keeps [system:index] keeps the ids of the collection. *)
Lemma ee_map_fid (f : feature -> result feature) (l l' : list feature) :
  (forall x y, f x = Ok y -> fid y = fid x) ->
  ee_map f l = Ok l' -> map fid l' = map fid l.
Proof.
  intros Hf. revert l'. induction l as [|x xs IH]; intros l' H.
  - simpl in H. injection H as <-. reflexivity.
  - apply ee_map_Ok_cons in H as (y & ys & Hy & Hys & ->).
    simpl. rewrite (Hf _ _ Hy), (IH _ Hys). reflexivity.
Qed.

Lemma set_fid (f : feature) k v : fid (set f k v) = fid f.
Proof. reflexivity. Qed.

Lemma set_geom (f : feature) k v : geom (set f k v) = geom f.
Proof. reflexivity. Qed.

Lemma get_set_ne (f : feature) k k' v : k' <> k -> get (set f k v) k' = get f k'.
Proof. intros Hne. unfold get, set; simpl. apply lookup_insert_ne. congruence. Qed.

Lemma get_set_eq (f : feature) k v : get (set f k v) k = Some v.
Proof. unfold get, set; simpl. apply lookup_insert_eq. Qed.

Lemma mean_stage_set img (f f' : feature) :
  mean_stage img f = Ok f' -> exists v, f' = set f "mean_elev_100m" v.
Proof.
  unfold mean_stage. destruct (geom f) as [g|]; [|discriminate].
  intros H. apply bind_Ok in H as (m & _ & H). injection H as <-. eauto.
Qed.

Lemma rel_stage_set (f f' : feature) :
  rel_stage f = Ok f' -> exists v, f' = set f "relative_elev" v.
Proof.
  unfold rel_stage. intros H.
  apply bind_Ok in H as (e & _ & H). apply bind_Ok in H as (m & _ & H).
  injection H as <-. eauto.
Qed.

Lemma sri_stage_set (f f' : feature) :
  sri_stage f = Ok f' -> exists v, f' = set f "solar_radiation_index" v.
Proof.
  unfold sri_stage. intros H.
  apply bind_Ok in H as (s & _ & H). apply bind_Ok in H as (a & _ & H).
  apply bind_Ok in H as (l & _ & H). injection H as <-. eauto.
Qed.

(** ** Solar radiation index *)

(** C1: for every feature with slope, aspect and a point geometry, [withSRI]
    sets [solar_radiation_index] to
    cos(zenith)cos(slopeRad) + sin(zenith)sin(slopeRad)cos(aspectRad - azimuth),
    with zenith = |latRad - 23.44 deg| and azimuth = 136.52 deg in radians. *)
Theorem sri_stage_formula (f : feature) (slopeDeg aspectDeg : R) (g : geometry)
  (Hs : get f "slope" = Some (VNum slopeDeg))
  (Ha : get f "aspect" = Some (VNum aspectDeg))
  (Hg : geom f = Some g) :
  let slopeRad := slopeDeg * PI / 180 in
  let aspectRad := aspectDeg * PI / 180 in
  let latRad := lat g * PI / 180 in
  let zenith := Rabs (latRad - 23.44 * PI / 180) in
  sri_stage f =
    Ok (set f "solar_radiation_index"
          (VNum (cos zenith * cos slopeRad
                 + sin zenith * sin slopeRad * cos (aspectRad - 136.52 * PI / 180)))).
Proof.
  unfold sri_stage, coordinate_1. rewrite Hs, Ha, Hg. reflexivity.
Qed.

Lemma sri_stage_formula_witness :
  let f := Feature "0_0" (Some (Point (-150) 64.73))
             (<["slope" := VNum 10]> (<["aspect" := VNum 180]> ∅)) in
  sri_stage f =
    Ok (set f "solar_radiation_index"
          (VNum (cos (Rabs (64.73 * PI / 180 - 23.44 * PI / 180)) * cos (10 * PI / 180)
                 + sin (Rabs (64.73 * PI / 180 - 23.44 * PI / 180)) * sin (10 * PI / 180)
                   * cos (180 * PI / 180 - 136.52 * PI / 180)))).
Proof.
  intros f. apply (sri_stage_formula f 10 180 (Point (-150) 64.73));
    reflexivity.
Defined.

(** C4: the solar radiation index lies in [-1, 1] for all slope, aspect and
    latitude. *)
Theorem sri_value_bounded (slopeDeg aspectDeg latDeg : R) :
  -1 <= sri_value slopeDeg aspectDeg latDeg <= 1.
Proof.
  unfold sri_value.
  set (z := solarZenith latDeg).
  set (s := slopeDeg * PI / 180).
  set (c := cos (aspectDeg * PI / 180 - solarAzimuth)).
  assert (Hz : sin z * sin z + cos z * cos z = 1).
  { pose proof (sin2_cos2 z) as H. unfold Rsqr in H. exact H. }
  assert (Hs : sin s * sin s + cos s * cos s = 1).
  { pose proof (sin2_cos2 s) as H. unfold Rsqr in H. exact H. }
  assert (Hc : -1 <= c <= 1) by apply COS_bound.
  set (X := cos z * cos s + sin z * sin s * c).
  assert (Hid : (cos z * cos z + sin z * sin z)
                * (cos s * cos s + sin s * c * (sin s * c))
                = X * X + (cos z * (sin s * c) - sin z * cos s)
                          * (cos z * (sin s * c) - sin z * cos s))
    by (unfold X; ring).
  assert (Hc2 : c * c <= 1) by nra.
  assert (Hsc : sin s * c * (sin s * c) <= sin s * sin s).
  { replace (sin s * c * (sin s * c)) with ((sin s * sin s) * (c * c)) by ring.
    pose proof (Rle_0_sqr (sin s)) as H0. unfold Rsqr in H0. nra. }
  assert (HX : X * X <= 1).
  { pose proof (Rle_0_sqr (cos z * (sin s * c) - sin z * cos s)) as H0.
    unfold Rsqr in H0. nra. }
  split; nra.
Qed.

(** C5: on flat terrain (slope 0) the index is cos(zenith), whatever the
    aspect. *)
Theorem sri_value_flat (latDeg aspect1 aspect2 : R) :
  sri_value 0 aspect1 latDeg = cos (solarZenith latDeg) /\
  sri_value 0 aspect1 latDeg = sri_value 0 aspect2 latDeg.
Proof.
  unfold sri_value.
  replace (0 * PI / 180) with 0 by (unfold Rdiv; ring).
  rewrite cos_0, sin_0. split; ring.
Qed.

(** C10: the index is symmetric in latitude about the declination 23.44 deg. *)
Theorem sri_value_symmetric_declination (slopeDeg aspectDeg x : R) :
  sri_value slopeDeg aspectDeg (23.44 + x) = sri_value slopeDeg aspectDeg (23.44 - x).
Proof.
  assert (Hz : solarZenith (23.44 + x) = solarZenith (23.44 - x)).
  { unfold solarZenith, solarDeclination.
    replace ((23.44 - x) * PI / 180 - 23.44 * PI / 180)
      with (- ((23.44 + x) * PI / 180 - 23.44 * PI / 180)) by (unfold Rdiv; ring).
    rewrite Rabs_Ropp. reflexivity. }
  unfold sri_value. rewrite Hz. reflexivity.
Qed.

(** ** Relative elevation *)

(** C2: with [elevation] and [mean_elev_100m] defined, [withRelativeElev]
    sets [relative_elev] to their difference. *)
Theorem rel_stage_difference (f : feature) (e m : R)
  (He : get f "elevation" = Some (VNum e))
  (Hm : get f "mean_elev_100m" = Some (VNum m)) :
  rel_stage f = Ok (set f "relative_elev" (VNum (e - m))) /\
  exists f', rel_stage f = Ok f' /\ get f' "relative_elev" = Some (VNum (e - m)).
Proof.
  assert (H : rel_stage f = Ok (set f "relative_elev" (VNum (e - m)))).
  { unfold rel_stage. rewrite He, Hm. reflexivity. }
  split; [exact H|]. eexists; split; [exact H|]. apply get_set_eq.
Qed.

Lemma rel_stage_difference_witness :
  let f := Feature "0_0" (Some (Point (-150) 64.73))
             (<["elevation" := VNum 120]> (<["mean_elev_100m" := VNum 115]> ∅)) in
  rel_stage f = Ok (set f "relative_elev" (VNum (120 - 115))) /\
  exists f', rel_stage f = Ok f' /\ get f' "relative_elev" = Some (VNum (120 - 115)).
Proof.
  intros f. apply (rel_stage_difference f 120 115); reflexivity.
Defined.

(** ** Sampling and the exported table *)

Definition covered (img : image) (q : feature) : bool :=
  match geom q with
  | Some g => match sample_at img g with Some _ => true | None => false end
  | None => false
  end.

Lemma sampleRegions_fid (img : image) (pts : list feature) :
  map fid (sampleRegions img pts)
  = map (fun q => String.append (fid q) "_0") (List.filter (covered img) pts).
Proof.
  induction pts as [|q qs IH]; [reflexivity|].
  unfold sampleRegions in *. simpl.
  unfold sample_feature at 1, covered at 1.
  destruct (geom q) as [g|]; [|exact IH].
  destruct (sample_at img g) as [[[e s] a]|]; simpl; [f_equal|]; exact IH.
Qed.

Lemma mean_stage_fid img (x y : feature) : mean_stage img x = Ok y -> fid y = fid x.
Proof. intros H. apply mean_stage_set in H as (v & ->). reflexivity. Qed.

Lemma rel_stage_fid (x y : feature) : rel_stage x = Ok y -> fid y = fid x.
Proof. intros H. apply rel_stage_set in H as (v & ->). reflexivity. Qed.

Lemma sri_stage_fid (x y : feature) : sri_stage x = Ok y -> fid y = fid x.
Proof. intros H. apply sri_stage_set in H as (v & ->). reflexivity. Qed.

Lemma pipeline_fid (img : image) (pts tbl : list feature) :
  pipeline img pts = Ok tbl ->
  map fid tbl = map (fun q => String.append (fid q) "_0") (List.filter (covered img) pts).
Proof.
  unfold pipeline. intros H.
  apply bind_Ok in H as (l1 & H1 & H). apply bind_Ok in H as (l2 & H2 & H3).
  rewrite (ee_map_fid _ _ _ sri_stage_fid H3), (ee_map_fid _ _ _ rel_stage_fid H2),
    (ee_map_fid _ _ _ (mean_stage_fid img) H1).
  apply sampleRegions_fid.
Qed.

Lemma string_length_app (a b : string) :
  String.length (String.append a b) = (String.length a + String.length b)%nat.
Proof. induction a as [|c a IH]; simpl; [reflexivity | rewrite IH; reflexivity]. Qed.

Lemma string_app_suffix_inj (a b s : string) : String.append a s = String.append b s -> a = b.
Proof.
  revert b. induction a as [|c a IH]; intros [|d b] H; simpl in H.
  - reflexivity.
  - apply (f_equal String.length) in H. simpl in H.
    rewrite !string_length_app in H. simpl in H. lia.
  - apply (f_equal String.length) in H. simpl in H.
    rewrite !string_length_app in H. simpl in H. lia.
  - injection H as -> H. f_equal. apply IH, H.
Qed.

Lemma NoDup_map_same {A B} (h : A -> B) (l : list A) (x y : A) :
  NoDup (map h l) -> In x l -> In y l -> h x = h y -> x = y.
Proof.
  induction l as [|z l IH]; simpl; [tauto|].
  intros Hnd Hx Hy Hxy. inversion Hnd as [|? ? Hz Hl]; subst.
  destruct Hx as [<-|Hx], Hy as [<-|Hy]; auto.
  - exfalso. apply Hz, list_elem_of_In. rewrite Hxy. apply in_map, Hy.
  - exfalso. apply Hz, list_elem_of_In. rewrite <- Hxy. apply in_map, Hx.
Qed.

(** The only printed output of the script is the band list of the DEM. *)
Lemma run_reported (img : image) (pts : list feature) (id : string) :
  reported (run img pts) id -> id = "elevation".
Proof.
  intros (lines & Hin & Hid). simpl in Hin.
  destruct Hin as [H|[H|[]]]; [|discriminate].
  injection H as <-. simpl in Hid. destruct Hid as [<-|[]]. reflexivity.
Qed.

(** An image whose every pixel is masked, and a point. *)
Definition img_masked : image :=
  Image (fun _ => None) (fun g => g) (fun _ _ => [Pixel 1 None]).

Definition pt0 : feature :=
  Feature "0" (Some (Point (-150) 64.73)) (<["site" := VStr "A"]> ∅).

(** C3 (as stated): a point outside the raster extent keeps a record in the
    exported table. It does not: [sampleRegions] drops it and the table is
    empty. *)
Lemma uncovered_point_record_cex :
  ~ (exists tbl r, pipeline img_masked [pt0] = Ok tbl /\ In r tbl).
Proof.
  intros (tbl & r & H & Hr). simpl in H. injection H as <-. destruct Hr.
Qed.

(** C3 (amended): a point whose pixel is masked in the sampled terrain stack
    has no record in the exported table ([sampleRegions] drops it and the
    later stages map over the sampled collection), and it is not reported
    anywhere in the script's printed output. *)
Theorem uncovered_point_dropped (img : image) (pts : list feature) (p : feature)
  (g : geometry) (tbl : list feature)
  (Hnd : NoDup (map fid pts)) (Hin : In p pts)
  (Hg : geom p = Some g) (Hm : sample_at img g = None)
  (Hrun : pipeline img pts = Ok tbl) (Hid : fid p <> "elevation") :
  ~ In (String.append (fid p) "_0") (map fid tbl) /\ ~ reported (run img pts) (fid p).
Proof.
  split.
  - rewrite (pipeline_fid _ _ _ Hrun). intros H.
    apply in_map_iff in H as (q & Hq & Hqin).
    apply filter_In in Hqin as [Hqpts Hcov].
    apply string_app_suffix_inj in Hq.
    assert (q = p) as -> by (apply (NoDup_map_same fid pts); auto).
    unfold covered in Hcov. rewrite Hg, Hm in Hcov. discriminate.
  - intros H. apply run_reported in H. contradiction.
Qed.

Lemma uncovered_point_dropped_witness :
  ~ In (String.append (fid pt0) "_0") (map fid []) /\ ~ reported (run img_masked [pt0]) (fid pt0).
Proof.
  apply (uncovered_point_dropped img_masked [pt0] pt0 (Point (-150) 64.73) []).
  - apply NoDup_singleton.
  - simpl. left. reflexivity.
  - reflexivity.
  - reflexivity.
  - reflexivity.
  - discriminate.
Defined.

(** ** Malformed coordinates *)

(** A thaw point without a geometry. *)
Definition pt_nogeom : feature := Feature "1" None (<["site" := VStr "B"]> ∅).

(** C7 (as stated): a malformed point is reported. It is not: the script
    prints nothing about it. *)
Lemma malformed_point_reported_cex :
  ~ reported (run img_masked [pt_nogeom]) (fid pt_nogeom).
Proof. intros H. apply run_reported in H. discriminate. Qed.

(** C7 (amended): the script checks no coordinate and has no exclusion
    report: its only printed output is the DEM's band list, so no point,
    malformed or not, is ever reported. *)
Theorem no_point_reported (img : image) (pts : list feature) (id : string)
  (Hid : id <> "elevation") :
  ~ reported (run img pts) id.
Proof. intros H. apply run_reported in H. contradiction. Qed.

Lemma no_point_reported_witness : ~ reported (run img_masked [pt_nogeom]) "1".
Proof. apply (no_point_reported img_masked [pt_nogeom] "1"). discriminate. Defined.

(** ** Valid pixels of a buffer *)

Definition has_value (q : pixel) : bool :=
  match pv q with Some _ => true | None => false end.

Lemma valid_pixels_filter (ps : list pixel) :
  valid_pixels (List.filter has_value ps) = valid_pixels ps.
Proof.
  induction ps as [|q ps IH]; [reflexivity|].
  unfold has_value; simpl. destruct (pv q) as [v|] eqn:E; simpl.
  - rewrite E. f_equal. exact IH.
  - exact IH.
Qed.

Lemma valid_pixels_nil (ps : list pixel) :
  valid_pixels ps = [] <-> Forall (fun q => pv q = None) ps.
Proof.
  induction ps as [|q ps IH]; simpl.
  - split; [constructor | reflexivity].
  - unfold valid_pixels in *. simpl. destruct (pv q) as [v|] eqn:E.
    + split; [discriminate | intros H; inversion H; congruence].
    + rewrite IH. split; [intros H; constructor; auto | intros H; inversion H; auto].
Qed.

Lemma reducer_mean_None (ps : list pixel) :
  reducer_mean ps = None <-> valid_pixels ps = [].
Proof. unfold reducer_mean. destruct (valid_pixels ps); split; congruence. Qed.

Lemma reduceRegion_mean_Ok (n : Z) (ps : list pixel) (m : option R) :
  reduceRegion_mean n ps = Ok m -> m = reducer_mean ps.
Proof.
  unfold reduceRegion_mean. destruct (_ >? _)%Z; [discriminate|congruence].
Qed.

Lemma ee_map_In {A B} (f : A -> result B) (l : list A) (l' : list B) (x : A) :
  ee_map f l = Ok l' -> In x l -> exists y, f x = Ok y /\ In y l'.
Proof.
  revert l'. induction l as [|z l IH]; intros l' H Hx; [destruct Hx|].
  apply ee_map_Ok_cons in H as (y & ys & Hy & Hys & ->).
  destruct Hx as [<-|Hx].
  - exists y. split; [exact Hy | left; reflexivity].
  - destruct (IH _ Hys Hx) as (y' & Hy' & Hin). exists y'. split; [exact Hy'|right; exact Hin].
Qed.

Lemma rel_stage_Ok_mean (f f' : feature) :
  rel_stage f = Ok f' -> exists m, get f "mean_elev_100m" = Some (VNum m).
Proof.
  unfold rel_stage. intros H.
  apply bind_Ok in H as (e & _ & H). apply bind_Ok in H as (m & Hm & _).
  apply ee_Number_Ok in Hm. eauto.
Qed.

(** ** Stages only add their own field *)

Definition adds_only (k : string) (f f' : feature) : Prop :=
  fid f' = fid f /\ geom f' = geom f /\ is_Some (get f' k) /\
  (forall k', k' <> k -> get f' k' = get f k').

Lemma set_adds_only (f : feature) (k : string) (v : value) :
  adds_only k f (set f k v).
Proof.
  split; [reflexivity | split; [reflexivity | split]].
  - rewrite get_set_eq. eexists; reflexivity.
  - intros k' Hne. apply get_set_ne, Hne.
Qed.

(** C8: the mean-elevation, relative-elevation and SRI stages each add their
    own field and keep the id, the geometry and every other property. *)
Theorem stages_add_only (img : image) (f f1 f2 f3 : feature)
  (H1 : mean_stage img f = Ok f1) (H2 : rel_stage f1 = Ok f2)
  (H3 : sri_stage f2 = Ok f3) :
  adds_only "mean_elev_100m" f f1 /\ adds_only "relative_elev" f1 f2 /\
  adds_only "solar_radiation_index" f2 f3.
Proof.
  apply mean_stage_set in H1 as (v1 & ->).
  apply rel_stage_set in H2 as (v2 & ->).
  apply sri_stage_set in H3 as (v3 & ->).
  split; [|split]; apply set_adds_only.
Qed.

Definition img_flat : image :=
  Image (fun _ => Some (120, 10, 180)) (fun g => g) (fun _ _ => [Pixel 1 (Some 115)]).

Definition pt_sampled : feature :=
  Feature "0_0" (Some (Point (-150) 64.73))
    (<["aspect" := VNum 180]> (<["slope" := VNum 10]> (<["elevation" := VNum 120]> ∅))).

Lemma stages_add_only_witness :
  let m := sum_R [1 * 115] / sum_R [1] in
  let f1 := set pt_sampled "mean_elev_100m" (VNum m) in
  let f2 := set f1 "relative_elev" (VNum (120 - m)) in
  let f3 := set f2 "solar_radiation_index" (VNum (sri_value 10 180 64.73)) in
  adds_only "mean_elev_100m" pt_sampled f1 /\ adds_only "relative_elev" f1 f2 /\
  adds_only "solar_radiation_index" f2 f3.
Proof.
  intros m f1 f2 f3.
  apply (stages_add_only img_flat pt_sampled f1 f2 f3); reflexivity.
Defined.

(** ** The [maxPixels] guard of the buffer mean *)

Module GridBound.
Import Grid.

Lemma zrange_length (lo hi : Z) : length (zrange lo hi) = Z.to_nat (hi - lo + 1).
Proof. unfold zrange. rewrite length_map, length_seq. reflexivity. Qed.

(** A side of the bounding box of a disk of radius at most 100 spans at most
    101 pixels of 2 m. *)
Lemma floor_span (c r : Q) :
  (0 <= r)%Q -> (r <= 100)%Q ->
  (Qfloor ((c + r) / 2) - Qfloor ((c - r) / 2) <= 100)%Z.
Proof.
  intros Hr0 Hr1.
  set (A := ((c + r) / 2)%Q). set (B := ((c - r) / 2)%Q).
  assert (HAB : (A - B == r)%Q) by (unfold A, B; field).
  pose proof (Qfloor_le A) as HA. pose proof (Qlt_floor B) as HB.
  rewrite inject_Z_plus in HB.
  apply Z.lt_succ_r. unfold Z.sub. rewrite Zlt_Qlt, inject_Z_plus, inject_Z_opp.
  change (inject_Z (Z.succ 100)) with 101%Q.
  change (inject_Z 1) with 1%Q in HB.
  Lqa.lra.
Qed.

Lemma region_cells_length (incl : Z * Z -> bool) (r cx cy : Q) :
  (0 <= r)%Q -> (r <= 100)%Q ->
  (length (region_cells incl 2 r cx cy) <= 101 * 101)%nat.
Proof.
  intros Hr0 Hr1. unfold region_cells.
  eapply Nat.le_trans; [apply filter_length_le|].
  unfold box_cells. rewrite length_prod, !zrange_length.
  pose proof (floor_span cx r Hr0 Hr1). pose proof (floor_span cy r Hr0 Hr1).
  pose proof (Qfloor_resp_le ((cx - r) / 2) ((cx + r) / 2)).
  apply Nat.mul_le_mono; lia.
Qed.

End GridBound.

(** C9: for a buffer of radius up to 100 m on the 2 m grid (about 10^4
    pixels), [reduceRegion]'s [maxPixels: 1e6] is never exceeded: the capped
    reduction gives the mean of the visited pixels. *)
Theorem maxPixels_never_reached (dem : Z * Z -> option R) (w : Z * Z -> R)
  (incl : Z * Z -> bool) (r cx cy : Q)
  (Hr0 : (0 <= r)%Q) (Hr1 : (r <= 100)%Q) :
  let ps := Grid.region_pixels dem w incl 2 r cx cy in
  (Z.of_nat (length ps) <= 101 * 101)%Z /\
  reduceRegion_mean maxPixels ps = Ok (reducer_mean ps).
Proof.
  intros ps.
  assert (Hlen : (Z.of_nat (length ps) <= 101 * 101)%Z).
  { unfold ps, Grid.region_pixels. rewrite length_map.
    pose proof (GridBound.region_cells_length incl r cx cy Hr0 Hr1). lia. }
  split; [exact Hlen|].
  unfold reduceRegion_mean, maxPixels.
  destruct (Z.of_nat (length ps) >? 1000000)%Z eqn:E; [|reflexivity].
  apply Z.gtb_lt in E. lia.
Qed.

Lemma maxPixels_never_reached_witness :
  let ps := Grid.region_pixels (fun _ => Some 120) (fun _ => 1) (fun _ => true)
              2 100 0 0 in
  (Z.of_nat (length ps) <= 101 * 101)%Z /\
  reduceRegion_mean maxPixels ps = Ok (reducer_mean ps).
Proof.
  apply (maxPixels_never_reached (fun _ => Some 120) (fun _ => 1) (fun _ => true)
           100 0 0); vm_compute; discriminate.
Defined.

(** * Further properties of the script *)

(** ** Whole-collection passes and per-record processing *)

Lemma bind_Ok_iff {A B} (m : result A) (k : A -> result B) (b : B) :
  bind m k = Ok b <-> exists a, m = Ok a /\ k a = Ok b.
Proof.
  split; [apply bind_Ok|]. intros (a & -> & H). exact H.
Qed.

Lemma ee_map_Forall2 {A B} (f : A -> result B) (l : list A) (l' : list B) :
  ee_map f l = Ok l' <-> Forall2 (fun x y => f x = Ok y) l l'.
Proof.
  split.
  - revert l'. induction l as [|x xs IH]; intros l' H.
    + simpl in H. injection H as <-. constructor.
    + apply ee_map_Ok_cons in H as (y & ys & Hy & Hys & ->).
      constructor; [exact Hy | apply IH, Hys].
  - induction 1 as [|x y xs ys Hxy _ IH]; [reflexivity|].
    simpl. rewrite Hxy. simpl. rewrite IH. reflexivity.
Qed.

Lemma Forall2_compose {A B C} (R1 : A -> B -> Prop) (R2 : B -> C -> Prop)
    (la : list A) (lb : list B) (lc : list C) :
  Forall2 R1 la lb -> Forall2 R2 lb lc ->
  Forall2 (fun x z => exists y, R1 x y /\ R2 y z) la lc.
Proof.
  intros H1. revert lc. induction H1 as [|x y xs ys Hxy _ IH]; intros lc H2;
    inversion H2; subst; constructor; eauto.
Qed.

Lemma Forall2_decompose {A B C} (R1 : A -> B -> Prop) (R2 : B -> C -> Prop)
    (la : list A) (lc : list C) :
  Forall2 (fun x z => exists y, R1 x y /\ R2 y z) la lc ->
  exists lb, Forall2 R1 la lb /\ Forall2 R2 lb lc.
Proof.
  induction 1 as [|x z xs zs (y & Hxy & Hyz) _ (lb & H1 & H2)].
  - exists []. split; constructor.
  - exists (y :: lb). split; constructor; auto.
Qed.

Lemma record_chain_Ok (img : image) (f o : feature) :
  record_chain img f = Ok o <->
  exists f1 f2, mean_stage img f = Ok f1 /\ rel_stage f1 = Ok f2 /\ sri_stage f2 = Ok o.
Proof.
  unfold record_chain. rewrite bind_Ok_iff. split.
  - intros (f1 & H1 & H). apply bind_Ok in H as (f2 & H2 & H3). eauto.
  - intros (f1 & f2 & H1 & H2 & H3). exists f1. split; [exact H1|].
    rewrite H2. exact H3.
Qed.

Lemma pipeline_Ok_iff (img : image) (pts tbl : list feature) :
  pipeline img pts = Ok tbl <->
  Forall2 (fun f o => record_chain img f = Ok o) (sampleRegions img pts) tbl.
Proof.
  unfold pipeline. rewrite bind_Ok_iff. split.
  - intros (l1 & H1 & H). apply bind_Ok in H as (l2 & H2 & H3).
    apply ee_map_Forall2 in H1, H2, H3.
    pose proof (Forall2_compose _ _ _ _ _ H1 (Forall2_compose _ _ _ _ _ H2 H3)) as H.
    eapply Forall2_impl; [exact H|]. cbv beta.
    intros f o (f1 & Hf1 & f2 & Hf2 & Ho). apply record_chain_Ok. eauto.
  - intros H.
    assert (H' : Forall2 (fun f o => exists f1, mean_stage img f = Ok f1 /\
                   exists f2, rel_stage f1 = Ok f2 /\ sri_stage f2 = Ok o)
                   (sampleRegions img pts) tbl).
    { eapply Forall2_impl; [exact H|]. cbv beta. intros f o Ho.
      apply record_chain_Ok in Ho as (f1 & f2 & ? & ? & ?). eauto. }
    apply Forall2_decompose in H' as (l1 & H1 & H23).
    apply Forall2_decompose in H23 as (l2 & H2 & H3).
    exists l1. split; [apply ee_map_Forall2, H1|].
    rewrite (proj2 (ee_map_Forall2 _ _ _) H2). simpl. apply ee_map_Forall2, H3.
Qed.

(** X1: the three whole-collection passes succeed with a table exactly when
    each sampled record, taken on its own through the mean, relative-elevation
    and SRI stages, succeeds, and the table lists those results in order. *)
Theorem pipeline_per_record (img : image) (pts tbl : list feature) :
  pipeline img pts = Ok tbl <->
  Forall2 (fun f o => record_chain img f = Ok o) (sampleRegions img pts) tbl.
Proof. apply pipeline_Ok_iff. Qed.

Lemma sampleRegions_cons (img : image) (x : feature) (xs : list feature) :
  sampleRegions img (x :: xs) =
  match sample_feature img x with
  | Some f => f :: sampleRegions img xs
  | None => sampleRegions img xs
  end.
Proof. reflexivity. Qed.

Lemma sampleRegions_app (img : image) (xs ys : list feature) :
  sampleRegions img (xs ++ ys) = sampleRegions img xs ++ sampleRegions img ys.
Proof.
  induction xs as [|x xs IH]; [reflexivity|].
  rewrite <- app_comm_cons, !sampleRegions_cons.
  destruct (sample_feature img x); rewrite IH; reflexivity.
Qed.

(** X2: points are processed independently: the run on [xs ++ ys] succeeds
    exactly when the runs on [xs] and on [ys] do, and its table is theirs
    concatenated. *)
Theorem pipeline_app (img : image) (xs ys tbl : list feature) :
  pipeline img (xs ++ ys) = Ok tbl <->
  exists t1 t2, pipeline img xs = Ok t1 /\ pipeline img ys = Ok t2 /\ tbl = t1 ++ t2.
Proof.
  rewrite pipeline_Ok_iff, sampleRegions_app. split.
  - intros H. apply Forall2_app_inv_l in H as (t1 & t2 & H1 & H2 & ->).
    exists t1, t2. rewrite !pipeline_Ok_iff. auto.
  - intros (t1 & t2 & H1 & H2 & ->). rewrite pipeline_Ok_iff in H1, H2.
    apply Forall2_app; assumption.
Qed.

(** ** One sampled record through the stages *)

Ltac get_simpl :=
  unfold get, set; simpl;
  repeat first [ rewrite lookup_insert_eq | rewrite lookup_insert_ne by discriminate ].

Lemma reduceRegion_mean_cases (n : Z) (ps : list pixel) :
  ((Z.of_nat (length ps) <= n)%Z /\ reduceRegion_mean n ps = Ok (reducer_mean ps)) \/
  ((n < Z.of_nat (length ps))%Z /\ exists e, reduceRegion_mean n ps = Err e).
Proof.
  unfold reduceRegion_mean. rewrite Z.gtb_ltb.
  destruct (n <? Z.of_nat (length ps))%Z eqn:E.
  - right. apply Z.ltb_lt in E. eauto.
  - left. apply Z.ltb_ge in E. auto.
Qed.

Lemma chain_sampled (img : image) (p f o : feature) (g : geometry) (e s a : R)
  (Hg : geom p = Some g) (Hs : sample_at img g = Some (e, s, a))
  (Hf : sample_feature img p = Some f) :
  let g' := sample_geom img g in
  let ps := buffer_pixels img g' 100 in
  record_chain img f = Ok o <->
  (Z.of_nat (length ps) <= maxPixels)%Z /\
  exists m, reducer_mean ps = Some m /\
    o = set (set (set f "mean_elev_100m" (VNum m)) "relative_elev" (VNum (e - m)))
          "solar_radiation_index" (VNum (sri_value s a (lat g'))).
Proof.
  intros g' ps.
  assert (Hfe : f = Feature (String.append (fid p) "_0") (Some g')
                  (<["aspect" := VNum a]> (<["slope" := VNum s]>
                     (<["elevation" := VNum e]> (props p))))).
  { unfold sample_feature in Hf. rewrite Hg, Hs in Hf. injection Hf as <-. reflexivity. }
  assert (Hms : mean_stage img f =
                bind (reduceRegion_mean maxPixels ps)
                  (fun m => Ok (set f "mean_elev_100m"
                                  (match m with Some m => VNum m | None => VNull end)))).
  { rewrite Hfe. reflexivity. }
  rewrite record_chain_Ok.
  destruct (reduceRegion_mean_cases maxPixels ps) as [[Hle Hred] | [Hlt [msg Hred]]].
  - rewrite Hred in Hms. simpl in Hms.
    destruct (reducer_mean ps) as [m|] eqn:Em.
    + set (f1 := set f "mean_elev_100m" (VNum m)) in *.
      assert (H2 : rel_stage f1 = Ok (set f1 "relative_elev" (VNum (e - m)))).
      { unfold rel_stage.
        replace (get f1 "elevation") with (Some (VNum e))
          by (unfold f1; rewrite Hfe; get_simpl; reflexivity).
        replace (get f1 "mean_elev_100m") with (Some (VNum m))
          by (unfold f1; get_simpl; reflexivity).
        reflexivity. }
      set (f2 := set f1 "relative_elev" (VNum (e - m))).
      assert (H3 : sri_stage f2 = Ok (set f2 "solar_radiation_index"
                                        (VNum (sri_value s a (lat g'))))).
      { unfold sri_stage.
        replace (get f2 "slope") with (Some (VNum s))
          by (unfold f2, f1; rewrite Hfe; get_simpl; reflexivity).
        replace (get f2 "aspect") with (Some (VNum a))
          by (unfold f2, f1; rewrite Hfe; get_simpl; reflexivity).
        unfold coordinate_1. replace (geom f2) with (Some g')
          by (unfold f2, f1; rewrite Hfe; reflexivity).
        reflexivity. }
      split.
      * intros (f1' & f2' & H1 & H2' & H3'). rewrite Hms in H1. injection H1 as <-.
        rewrite H2 in H2'. injection H2' as <-.
        fold f2 in H3'. rewrite H3 in H3'. injection H3' as <-.
        split; [exact Hle|]. exists m. split; reflexivity.
      * intros (_ & m' & Hm' & ->). injection Hm' as <-.
        exists f1, f2. split; [exact Hms | split; [exact H2 | exact H3]].
    + split.
      * intros (f1 & f2 & H1 & H2 & _). rewrite Hms in H1. injection H1 as <-.
        apply rel_stage_Ok_mean in H2 as (m & Hm).
        revert Hm. get_simpl. discriminate.
      * intros (_ & m & Hm & _). discriminate.
  - rewrite Hred in Hms. simpl in Hms. split.
    + intros (f1 & f2 & H1 & _). rewrite Hms in H1. discriminate.
    + intros [Hle _]. lia.
Qed.

(** X3: a point sampled with elevation [e], slope [s] and aspect [a] comes out
    of the three stages exactly when its 100 m buffer holds at most
    [maxPixels] pixels and at least one valid one; the record then carries
    mean_elev_100m = m (the buffer mean), relative_elev = e - m and the SRI of
    [s], [a] and the latitude of its sampled geometry. *)
Theorem sampled_point_result (img : image) (p o : feature) (g : geometry) (e s a : R)
  (Hg : geom p = Some g) (Hs : sample_at img g = Some (e, s, a)) :
  let g' := sample_geom img g in
  let ps := buffer_pixels img g' 100 in
  let f := Feature (String.append (fid p) "_0") (Some g')
             (<["aspect" := VNum a]> (<["slope" := VNum s]>
                (<["elevation" := VNum e]> (props p)))) in
  sample_feature img p = Some f /\
  (record_chain img f = Ok o <->
   (Z.of_nat (length ps) <= maxPixels)%Z /\
   exists m, reducer_mean ps = Some m /\
     o = set (set (set f "mean_elev_100m" (VNum m)) "relative_elev" (VNum (e - m)))
           "solar_radiation_index" (VNum (sri_value s a (lat g')))).
Proof.
  intros g' ps f.
  assert (Hf : sample_feature img p = Some f).
  { unfold sample_feature. rewrite Hg, Hs. reflexivity. }
  split; [exact Hf|]. apply (chain_sampled img p f o g e s a Hg Hs Hf).
Qed.

Lemma sampled_point_result_witness :
  let p := Feature "0" (Some (Point (-150) 64.73)) (<["site" := VStr "A"]> ∅) in
  let f := Feature "0_0" (Some (Point (-150) 64.73))
             (<["aspect" := VNum 180]> (<["slope" := VNum 10]>
                (<["elevation" := VNum 120]> (props p)))) in
  let ps := [Pixel 1 (Some 115)] in
  let m0 := sum_R [1 * 115] / sum_R [1] in
  let o := set (set (set f "mean_elev_100m" (VNum m0)) "relative_elev" (VNum (120 - m0)))
             "solar_radiation_index" (VNum (sri_value 10 180 64.73)) in
  sample_feature img_flat p = Some f /\
  (record_chain img_flat f = Ok o <->
   (Z.of_nat (length ps) <= maxPixels)%Z /\
   exists m, reducer_mean ps = Some m /\
     o = set (set (set f "mean_elev_100m" (VNum m)) "relative_elev" (VNum (120 - m)))
           "solar_radiation_index" (VNum (sri_value 10 180 (lat (Point (-150) 64.73))))).
Proof.
  intros p f ps m0 o.
  apply (sampled_point_result img_flat p o (Point (-150) 64.73) 120 10 180);
    reflexivity.
Defined.

(** ** When the run produces a table *)

Lemma Forall2_exists_iff {A B} (Rel : A -> B -> Prop) (l : list A) :
  (exists l', Forall2 Rel l l') <-> Forall (fun x => exists y, Rel x y) l.
Proof.
  split.
  - intros (l' & H). induction H; constructor; eauto.
  - induction 1 as [|x xs (y & Hy) _ (ys & Hys)].
    + exists []. constructor.
    + exists (y :: ys). constructor; assumption.
Qed.

Lemma Forall_sampleRegions (img : image) (P : feature -> Prop) (pts : list feature) :
  Forall P (sampleRegions img pts) <->
  (forall p f, In p pts -> sample_feature img p = Some f -> P f).
Proof.
  induction pts as [|q qs IH].
  - split; [intros _ p f [] | intros _; constructor].
  - rewrite sampleRegions_cons. split.
    + intros H p f [<-|Hin] Hf.
      * rewrite Hf in H. inversion H; assumption.
      * destruct (sample_feature img q); [inversion H; subst|];
          apply IH with p; assumption.
    + intros H. destruct (sample_feature img q) as [f|] eqn:Ef.
      * constructor; [apply (H q); [left|]; auto|].
        apply IH. intros p f' Hin. apply H. right. exact Hin.
      * apply IH. intros p f' Hin. apply H. right. exact Hin.
Qed.

Lemma sample_feature_Some (img : image) (p f : feature) :
  sample_feature img p = Some f ->
  exists g e s a, geom p = Some g /\ sample_at img g = Some (e, s, a).
Proof.
  unfold sample_feature. destruct (geom p) as [g|]; [|discriminate].
  destruct (sample_at img g) as [[[e s] a]|] eqn:E; [|discriminate]. eauto 7.
Qed.

Lemma chain_sampled_exists (img : image) (p f : feature) (g : geometry) (e s a : R)
  (Hg : geom p = Some g) (Hs : sample_at img g = Some (e, s, a))
  (Hf : sample_feature img p = Some f) :
  let ps := buffer_pixels img (sample_geom img g) 100 in
  (exists o, record_chain img f = Ok o) <->
  (Z.of_nat (length ps) <= maxPixels)%Z /\ valid_pixels ps <> [].
Proof.
  intros ps. unfold ps. clear ps. split.
  - intros (o & Ho). apply (chain_sampled img p f o g e s a Hg Hs Hf) in Ho
      as (Hle & m & Hm & _).
    split; [exact Hle|]. intros Hnil. apply reducer_mean_None in Hnil. congruence.
  - intros (Hle & Hv). destruct (reducer_mean (buffer_pixels img (sample_geom img g) 100)) as [m|] eqn:Hm.
    + eexists. apply (chain_sampled img p f _ g e s a Hg Hs Hf).
      split; [exact Hle|]. exists m. split; [exact Hm | reflexivity].
    + apply reducer_mean_None in Hm. contradiction.
Qed.

(** X4: the run exports a table exactly when, for every input point that
    [sampleRegions] samples, the 100 m buffer holds at most [maxPixels]
    pixels and at least one valid (unmasked) pixel; otherwise the run fails
    as a whole. *)
Theorem pipeline_succeeds_iff (img : image) (pts : list feature) :
  (exists tbl, pipeline img pts = Ok tbl) <->
  (forall p g e s a, In p pts -> geom p = Some g -> sample_at img g = Some (e, s, a) ->
     let ps := buffer_pixels img (sample_geom img g) 100 in
     (Z.of_nat (length ps) <= maxPixels)%Z /\ valid_pixels ps <> []).
Proof.
  setoid_rewrite pipeline_Ok_iff. rewrite Forall2_exists_iff, Forall_sampleRegions.
  split.
  - intros H p g e s a Hin Hg Hs ps.
    destruct (sample_feature img p) as [f|] eqn:Hf.
    + apply (chain_sampled_exists img p f g e s a Hg Hs Hf), (H p f Hin Hf).
    + unfold sample_feature in Hf. rewrite Hg, Hs in Hf. discriminate.
  - intros H p f Hin Hf.
    destruct (sample_feature_Some img p f Hf) as (g & e & s & a & Hg & Hs).
    apply (chain_sampled_exists img p f g e s a Hg Hs Hf), (H p g e s a Hin Hg Hs).
Qed.

(** ** Where each record of the table comes from *)

Lemma sampleRegions_Forall2 (img : image) (pts : list feature) :
  Forall2 (fun p f => sample_feature img p = Some f)
    (List.filter (covered img) pts) (sampleRegions img pts).
Proof.
  induction pts as [|q qs IH]; [constructor|].
  rewrite sampleRegions_cons. simpl.
  unfold covered at 1. destruct (sample_feature img q) as [f|] eqn:Ef.
  - destruct (sample_feature_Some img q f Ef) as (g & e & s & a & Hg & Hs).
    rewrite Hg, Hs. constructor; assumption.
  - destruct (geom q) as [g|] eqn:Hg; [|exact IH].
    destruct (sample_at img g) eqn:Hs; [|exact IH].
    exfalso. unfold sample_feature in Ef. rewrite Hg, Hs in Ef.
    destruct p as [[e s] a]. discriminate.
Qed.

(** ** The buffer mean of the exported records *)

Lemma Forall2_In_r {A B} (Rel : A -> B -> Prop) (l : list A) (l' : list B) (y : B) :
  Forall2 Rel l l' -> In y l' -> exists x, In x l /\ Rel x y.
Proof.
  induction 1 as [|x y' xs ys Hxy _ IH]; [intros []|].
  intros [<-|Hy].
  - exists x. split; [left; reflexivity | exact Hxy].
  - destruct (IH Hy) as (x' & Hx' & H'). exists x'. split; [right; exact Hx' | exact H'].
Qed.

Lemma reducer_mean_Some (ps : list pixel) (m : R) :
  reducer_mean ps = Some m ->
  valid_pixels ps <> [] /\
  m = sum_R (map (fun wv => fst wv * snd wv) (valid_pixels ps))
      / sum_R (map fst (valid_pixels ps)).
Proof.
  unfold reducer_mean. destruct (valid_pixels ps) as [|v vs]; [discriminate|].
  intros H. injection H as <-. split; [discriminate | reflexivity].
Qed.

Lemma own_pixel_valid (img : image) (g : geometry) (e s a : R) :
  own_pixel_in_buffer img -> sample_at img g = Some (e, s, a) ->
  valid_pixels (buffer_pixels img (sample_geom img g) 100) <> [].
Proof.
  intros Hdem Hs Hnil. destruct (Hdem _ _ _ _ Hs) as (q & Hq & Hv).
  apply valid_pixels_nil in Hnil. rewrite Forall_forall in Hnil.
  specialize (Hnil q (proj2 (list_elem_of_In _ _) Hq)). congruence.
Qed.

(** C6 (as stated): a point whose 100 m disk covers no valid cell keeps a
    record with [mean_elev_100m] and [relative_elev] explicitly missing. It
    does not: on a raster masked everywhere (the point far off the DEM) its
    own pixel is masked too, [sampleRegions] drops it, and the table has no
    record at all, let alone one with missing values. *)
Lemma zero_coverage_missing_record_cex :
  own_pixel_in_buffer img_masked /\
  Forall (fun q => pv q = None)
    (buffer_pixels img_masked (sample_geom img_masked (Point (-150) 64.73)) 100) /\
  pipeline img_masked [pt0] = Ok [] /\
  ~ (exists tbl o, pipeline img_masked [pt0] = Ok tbl /\ In o tbl /\
       get o "mean_elev_100m" = Some VNull /\ get o "relative_elev" = Some VNull).
Proof.
  split; [intros g e s a H; discriminate|].
  split; [repeat constructor|].
  split; [reflexivity|].
  intros (tbl & o & H & Ho & _). simpl in H. injection H as <-. destruct Ho.
Qed.

(** C6 (amended): when the raster's sampled pixel is one of its buffer's
    pixels and every buffer stays within [maxPixels] (as it does on the 2 m
    grid), the run exports a table in which every record has
    [mean_elev_100m] = m, the mean of the valid pixels of its 100 m buffer
    (masked cells, such as those beyond the raster extent, do not count; each
    valid pixel weighted by its part inside the buffer), and
    [relative_elev] = elevation - m: neither is ever missing. A point whose
    buffer has no valid pixel has no record at all, because its own pixel is
    masked and [sampleRegions] drops it. *)
Theorem mean_elev_from_valid_pixels (img : image) (pts : list feature)
  (Hdem : own_pixel_in_buffer img)
  (Hmax : forall p g, In p pts -> geom p = Some g ->
     (Z.of_nat (length (buffer_pixels img (sample_geom img g) 100)) <= maxPixels)%Z)
  (Hnd : NoDup (map fid pts)) :
  exists tbl, pipeline img pts = Ok tbl /\
  (forall o, In o tbl -> exists p g e s a m,
     let vs := valid_pixels (buffer_pixels img (sample_geom img g) 100) in
     In p pts /\ geom p = Some g /\ sample_at img g = Some (e, s, a) /\
     fid o = String.append (fid p) "_0" /\
     vs <> [] /\ m = sum_R (map (fun wv => fst wv * snd wv) vs) / sum_R (map fst vs) /\
     get o "mean_elev_100m" = Some (VNum m) /\
     get o "relative_elev" = Some (VNum (e - m))) /\
  (forall p g, In p pts -> geom p = Some g ->
     Forall (fun q => pv q = None) (buffer_pixels img (sample_geom img g) 100) ->
     ~ In (String.append (fid p) "_0") (map fid tbl)) /\
  (forall ps, reducer_mean ps = reducer_mean (List.filter has_value ps)).
Proof.
  assert (Hall : forall p f, In p pts -> sample_feature img p = Some f ->
                   exists o, record_chain img f = Ok o).
  { intros p f Hin Hf.
    destruct (sample_feature_Some img p f Hf) as (g & e & s & a & Hg & Hs).
    apply (chain_sampled_exists img p f g e s a Hg Hs Hf).
    split; [exact (Hmax p g Hin Hg) | exact (own_pixel_valid img g e s a Hdem Hs)]. }
  apply (proj2 (Forall_sampleRegions img (fun f => exists o, record_chain img f = Ok o) pts))
    in Hall.
  destruct (proj2 (Forall2_exists_iff (fun f o => record_chain img f = Ok o)
                     (sampleRegions img pts)) Hall) as (tbl & Htbl).
  assert (Hrun : pipeline img pts = Ok tbl) by (apply pipeline_Ok_iff; exact Htbl).
  exists tbl. split; [exact Hrun | split; [|split]].
  - intros o Ho.
    pose proof (Forall2_compose _ _ _ _ _ (sampleRegions_Forall2 img pts) Htbl) as H.
    destruct (Forall2_In_r _ _ _ _ H Ho) as (p & Hp & f & Hf & Hchain).
    apply filter_In in Hp as [Hin _].
    destruct (sample_feature_Some img p f Hf) as (g & e & s & a & Hg & Hs).
    assert (Hfid : fid f = String.append (fid p) "_0").
    { unfold sample_feature in Hf. rewrite Hg, Hs in Hf. injection Hf as <-. reflexivity. }
    destruct (proj1 (chain_sampled img p f o g e s a Hg Hs Hf) Hchain) as (Hle & m & Hm & Ho').
    subst o. clear Hle.
    apply reducer_mean_Some in Hm as [Hv Hm].
    exists p, g, e, s, a, m. intros vs.
    split; [exact Hin | split; [exact Hg | split; [exact Hs | split; [exact Hfid|]]]].
    split; [exact Hv | split; [exact Hm | split]].
    + rewrite !get_set_ne by discriminate. apply get_set_eq.
    + rewrite get_set_ne by discriminate. apply get_set_eq.
  - intros p g Hin Hg Hnone H. rewrite (pipeline_fid _ _ _ Hrun) in H.
    apply in_map_iff in H as (q & Hq & Hqin). apply filter_In in Hqin as [Hqpts Hcov].
    apply string_app_suffix_inj in Hq.
    assert (q = p) as -> by (apply (NoDup_map_same fid pts); auto).
    unfold covered in Hcov. rewrite Hg in Hcov.
    destruct (sample_at img g) as [[[e s] a]|] eqn:Hs; [|discriminate].
    apply (own_pixel_valid img g e s a Hdem Hs). apply valid_pixels_nil, Hnone.
  - intros ps. unfold reducer_mean. rewrite valid_pixels_filter. reflexivity.
Qed.

(** A raster whose buffer around a sampled point holds the point's own pixel
    (120 m), another valid pixel and a masked one. *)
Definition img_dem : image :=
  Image (fun _ => Some (120, 10, 180)) (fun g => g)
    (fun _ _ => [Pixel 1 (Some 120); Pixel 1 (Some 110); Pixel (1 / 2) None]).

Lemma mean_elev_from_valid_pixels_witness :
  exists tbl, pipeline img_dem [pt0] = Ok tbl /\
  (forall o, In o tbl -> exists p g e s a m,
     let vs := valid_pixels (buffer_pixels img_dem (sample_geom img_dem g) 100) in
     In p [pt0] /\ geom p = Some g /\ sample_at img_dem g = Some (e, s, a) /\
     fid o = String.append (fid p) "_0" /\
     vs <> [] /\ m = sum_R (map (fun wv => fst wv * snd wv) vs) / sum_R (map fst vs) /\
     get o "mean_elev_100m" = Some (VNum m) /\
     get o "relative_elev" = Some (VNum (e - m))) /\
  (forall p g, In p [pt0] -> geom p = Some g ->
     Forall (fun q => pv q = None) (buffer_pixels img_dem (sample_geom img_dem g) 100) ->
     ~ In (String.append (fid p) "_0") (map fid tbl)) /\
  (forall ps, reducer_mean ps = reducer_mean (List.filter has_value ps)).
Proof.
  apply (mean_elev_from_valid_pixels img_dem [pt0]).
  - intros g e s a H. simpl in H. injection H as He _ _. subst e.
    exists (Pixel 1 (Some 120)). split; [left; reflexivity | reflexivity].
  - intros p g _ _. unfold maxPixels. simpl. lia.
  - apply NoDup_singleton.
Defined.

Lemma not_derived (k : string) : ~ In k derived_keys ->
  k <> "elevation" /\ k <> "slope" /\ k <> "aspect" /\ k <> "mean_elev_100m" /\
  k <> "relative_elev" /\ k <> "solar_radiation_index".
Proof. intros H. simpl in H. repeat split; intros ->; apply H; tauto. Qed.

(** X5: the table lists, in input order, one record per input point that
    [sampleRegions] samples: its id is the input id with "_0" appended, its
    geometry is the sampled geometry, and every input property other than
    the six the script writes is carried over unchanged. *)
Theorem pipeline_provenance (img : image) (pts tbl : list feature)
  (Hrun : pipeline img pts = Ok tbl) :
  Forall2 (fun p o =>
      fid o = String.append (fid p) "_0" /\
      geom o = option_map (sample_geom img) (geom p) /\
      (forall k, ~ In k derived_keys -> get o k = get p k))
    (List.filter (covered img) pts) tbl.
Proof.
  apply pipeline_Ok_iff in Hrun.
  pose proof (Forall2_compose _ _ _ _ _ (sampleRegions_Forall2 img pts) Hrun) as H.
  eapply Forall2_impl; [exact H|]. cbv beta.
  intros p o (f & Hf & Ho).
  apply record_chain_Ok in Ho as (f1 & f2 & H1 & H2 & H3).
  apply mean_stage_set in H1 as (v1 & ->).
  apply rel_stage_set in H2 as (v2 & ->).
  apply sri_stage_set in H3 as (v3 & ->).
  unfold sample_feature in Hf.
  destruct (geom p) as [g|] eqn:Hg; [|discriminate].
  destruct (sample_at img g) as [[[e s] a]|]; [|discriminate].
  injection Hf as <-.
  split; [reflexivity | split; [reflexivity|]].
  intros k Hk. apply not_derived in Hk as (Hk1 & Hk2 & Hk3 & Hk4 & Hk5 & Hk6).
  rewrite !get_set_ne by congruence.
  unfold get; simpl. rewrite !lookup_insert_ne by congruence. reflexivity.
Qed.

Lemma pipeline_provenance_witness :
  let f := Feature "0_0" (Some (Point (-150) 64.73))
             (<["aspect" := VNum 180]> (<["slope" := VNum 10]>
                (<["elevation" := VNum 120]> (props pt0)))) in
  let m0 := sum_R [1 * 120; 1 * 110] / sum_R [1; 1] in
  let o := set (set (set f "mean_elev_100m" (VNum m0)) "relative_elev" (VNum (120 - m0)))
             "solar_radiation_index" (VNum (sri_value 10 180 64.73)) in
  Forall2 (fun p o =>
      fid o = String.append (fid p) "_0" /\
      geom o = option_map (sample_geom img_dem) (geom p) /\
      (forall k, ~ In k derived_keys -> get o k = get p k))
    (List.filter (covered img_dem) [pt0]) [o].
Proof.
  intros f m0 o. apply (pipeline_provenance img_dem [pt0] [o]). reflexivity.
Defined.

(** X6: when every input point has a geometry whose terrain pixel is masked
    (every point off the raster), the run does not fail: [sampleRegions]
    drops all of them and the run exports an empty table. *)
Theorem pipeline_nothing_sampled (img : image) (pts : list feature)
  (Hnone : Forall (fun p => exists g, geom p = Some g /\ sample_at img g = None) pts) :
  pipeline img pts = Ok [].
Proof.
  assert (Hs : sampleRegions img pts = []).
  { induction Hnone as [|q qs (g & Hg & Hq) _ IH]; [reflexivity|].
    rewrite sampleRegions_cons, IH. unfold sample_feature. rewrite Hg, Hq. reflexivity. }
  unfold pipeline. rewrite Hs. reflexivity.
Qed.

(** A second point off the raster. *)
Definition pt_off : feature :=
  Feature "2" (Some (Point (-149.5) 65.1)) (<["site" := VStr "C"]> ∅).

Lemma pipeline_nothing_sampled_witness : pipeline img_masked [pt0; pt_off] = Ok [].
Proof.
  apply pipeline_nothing_sampled.
  repeat constructor; eexists; split; reflexivity.
Defined.

(** ** More on the solar radiation index *)

(** X7: at the latitude of the declination (23.44 deg) the zenith is 0 and
    the index is cos(slopeRad), whatever the aspect. *)
Theorem sri_value_at_declination (slopeDeg aspectDeg : R) :
  sri_value slopeDeg aspectDeg 23.44 = cos (slopeDeg * PI / 180).
Proof.
  unfold sri_value, solarZenith, solarDeclination.
  rewrite Rminus_diag, Rabs_R0, cos_0, sin_0. ring.
Qed.

(** X8: aspects that differ by a full turn (360 deg) give the same index. *)
Theorem sri_value_aspect_period (slopeDeg aspectDeg latDeg : R) :
  sri_value slopeDeg (aspectDeg + 360) latDeg = sri_value slopeDeg aspectDeg latDeg.
Proof.
  unfold sri_value.
  replace ((aspectDeg + 360) * PI / 180 - solarAzimuth)
    with ((aspectDeg * PI / 180 - solarAzimuth) + 2 * PI) by field.
  rewrite cos_plus, cos_2PI, sin_2PI. ring.
Qed.

(** X9: for slopes in [0, 90] deg and latitudes in [-90, 90] deg, the index
    is largest when the slope faces the fixed solar azimuth (aspect
    136.52 deg), where it equals cos(zenith - slopeRad). *)
Theorem sri_value_max_facing_sun (slopeDeg aspectDeg latDeg : R)
  (Hs : 0 <= slopeDeg <= 90) (Hl : -90 <= latDeg <= 90) :
  sri_value slopeDeg aspectDeg latDeg <= sri_value slopeDeg 136.52 latDeg /\
  sri_value slopeDeg 136.52 latDeg = cos (solarZenith latDeg - slopeDeg * PI / 180).
Proof.
  pose proof PI_RGT_0 as Hpi.
  assert (Hz : 0 <= solarZenith latDeg <= PI).
  { unfold solarZenith, solarDeclination. split; [apply Rabs_pos|].
    apply Rabs_le.
    replace (latDeg * PI / 180 - 23.44 * PI / 180)
      with ((latDeg - 23.44) * PI / 180) by (unfold Rdiv; ring).
    unfold Rdiv. split; nra. }
  assert (Hsr : 0 <= slopeDeg * PI / 180 <= PI) by (unfold Rdiv; split; nra).
  pose proof (sin_ge_0 _ (proj1 Hz) (proj2 Hz)) as Hsz.
  pose proof (sin_ge_0 _ (proj1 Hsr) (proj2 Hsr)) as Hss.
  unfold sri_value; cbv zeta.
  replace (136.52 * PI / 180 - solarAzimuth) with 0 by (unfold solarAzimuth; ring).
  rewrite cos_0, (cos_minus (solarZenith latDeg)).
  pose proof (COS_bound (aspectDeg * PI / 180 - solarAzimuth)) as Hc.
  split; [|ring].
  assert (H0 : 0 <= sin (solarZenith latDeg) * sin (slopeDeg * PI / 180))
    by (apply Rmult_le_pos; assumption).
  nra.
Qed.

Lemma sri_value_max_facing_sun_witness :
  sri_value 10 180 64.73 <= sri_value 10 136.52 64.73 /\
  sri_value 10 136.52 64.73 = cos (solarZenith 64.73 - 10 * PI / 180).
Proof. apply sri_value_max_facing_sun; lra. Defined.

(** ** Relative elevation and the buffer's elevations *)

Lemma valid_pixels_bounds (ps : list pixel) (L U : R)
  (Hw : Forall (fun q => 0 < pw q) ps)
  (Hv : Forall (fun q => forall v, pv q = Some v -> L <= v <= U) ps) :
  Forall (fun wv => 0 < fst wv /\ L <= snd wv <= U) (valid_pixels ps).
Proof.
  induction ps as [|q ps IH]; [constructor|].
  inversion Hw as [|? ? Hq Hw']; inversion Hv as [|? ? Hq' Hv']; subst.
  unfold valid_pixels in *. simpl. destruct (pv q) as [v|] eqn:E.
  - constructor; [simpl; split; [exact Hq | apply Hq'; reflexivity] | apply IH; assumption].
  - apply IH; assumption.
Qed.

Lemma weighted_sums_bounds (vs : list (R * R)) (L U : R)
  (H : Forall (fun wv => 0 < fst wv /\ L <= snd wv <= U) vs) :
  0 <= sum_R (map fst vs) /\
  L * sum_R (map fst vs) <= sum_R (map (fun wv => fst wv * snd wv) vs) <=
  U * sum_R (map fst vs).
Proof.
  induction H as [|[w v] vs (Hw & Hl & Hu) _ (H0 & H1 & H2)]; simpl in *.
  - lra.
  - split; [lra|]. split; nra.
Qed.

Lemma reducer_mean_bounds (ps : list pixel) (L U m : R)
  (Hw : Forall (fun q => 0 < pw q) ps)
  (Hv : Forall (fun q => forall v, pv q = Some v -> L <= v <= U) ps)
  (Hm : reducer_mean ps = Some m) :
  L <= m <= U.
Proof.
  pose proof (valid_pixels_bounds ps L U Hw Hv) as H.
  unfold reducer_mean in Hm.
  destruct (valid_pixels ps) as [|[w v] vs] eqn:E; [discriminate|].
  injection Hm as <-.
  inversion H as [|? ? (Hw0 & _) Hvs]; subst.
  pose proof (weighted_sums_bounds _ L U H) as (H0 & H1 & H2).
  set (A := sum_R (map (fun wv => fst wv * snd wv) ((w, v) :: vs))) in *.
  set (B := sum_R (map fst ((w, v) :: vs))) in *.
  assert (HB : 0 < B).
  { unfold B. simpl. pose proof (weighted_sums_bounds _ L U Hvs) as (Hp & _). simpl in Hw0. lra. }
  assert (HAB : A / B * B = A) by (field; lra).
  assert (Hr : L <= A / B <= U).
  { set (m := A / B) in *. split; apply Rmult_le_reg_r with B; lra. }
  exact Hr.
Qed.

(** X10: if the valid pixels of a sampled point's 100 m buffer (all with a
    positive weight) have elevations in [L, U], its relative_elev lies in
    [e - U, e - L], where [e] is the point's elevation: a point at least as high
    as its whole buffer gets a non-negative value, one at most as high a
    non-positive one. *)
Theorem relative_elev_bounds (img : image) (p f o : feature) (g : geometry)
  (e s a L U : R)
  (Hg : geom p = Some g) (Hs : sample_at img g = Some (e, s, a))
  (Hf : sample_feature img p = Some f)
  (Hw : Forall (fun q => 0 < pw q) (buffer_pixels img (sample_geom img g) 100))
  (Hv : Forall (fun q => forall v, pv q = Some v -> L <= v <= U)
          (buffer_pixels img (sample_geom img g) 100))
  (Ho : record_chain img f = Ok o) :
  exists r, get o "relative_elev" = Some (VNum r) /\ e - U <= r <= e - L.
Proof.
  apply (chain_sampled img p f o g e s a Hg Hs Hf) in Ho as (_ & m & Hm & ->).
  pose proof (reducer_mean_bounds _ L U m Hw Hv Hm) as Hb.
  exists (e - m). split; [|lra].
  rewrite get_set_ne by discriminate. apply get_set_eq.
Qed.

Lemma relative_elev_bounds_witness :
  let p := Feature "0" (Some (Point (-150) 64.73)) (<["site" := VStr "A"]> ∅) in
  let f := Feature "0_0" (Some (Point (-150) 64.73))
             (<["aspect" := VNum 180]> (<["slope" := VNum 10]>
                (<["elevation" := VNum 120]> (props p)))) in
  let m0 := sum_R [1 * 115] / sum_R [1] in
  let o := set (set (set f "mean_elev_100m" (VNum m0)) "relative_elev" (VNum (120 - m0)))
             "solar_radiation_index" (VNum (sri_value 10 180 64.73)) in
  exists r, get o "relative_elev" = Some (VNum r) /\ 120 - 115 <= r <= 120 - 115.
Proof.
  intros p f m0 o.
  apply (relative_elev_bounds img_flat p f o (Point (-150) 64.73) 120 10 180 115 115).
  - reflexivity.
  - reflexivity.
  - reflexivity.
  - constructor; [simpl; lra | constructor].
  - constructor; [|constructor]. simpl. intros v Hv. injection Hv as <-. lra.
  - reflexivity.
Defined.
